(** * Verification of [utils.py]: helpers shared by the incremental-learning
    models (fine-tuning, iCaRL, LwF).

    The Python functions are embedded as Rocq functions of the same names.
    - Python exceptions are the [Raise] results of a small error monad.
    - Python values that reach the label helpers are the inductive [pyval];
      a 1-D integer tensor is the list of its entries.
    - 2-D tensors carry their number of columns next to their rows, so that a
      tensor with no row still has a shape.
    - Tensor arithmetic is written once over a class of scalars ([Scalar]),
      the floating-point dtype shared by the tensors of a call, and read at
      IEEE binary64 ([float], the entries of a float64 tensor). *)

From Stdlib Require Import ZArith List Lia Floats Sorted.
From stdpp Require Import gmap strings list fin_maps pretty.

(** ** Exceptions *)

Inductive exn := TypeError | IndexError | ValueError | RuntimeError.

Inductive outcome (A : Type) :=
| Ok (a : A)
| Raise (e : exn).
Arguments Ok {A} a.
Arguments Raise {A} e.

#[global] Instance outcome_ret : MRet outcome := fun A a => Ok a.
#[global] Instance outcome_bind : MBind outcome := fun A B f m =>
  match m with
  | Ok a => f a
  | Raise e => Raise e
  end.

Definition fails {A} (m : outcome A) : Prop :=
  match m with
  | Ok _ => False
  | Raise _ => True
  end.

(** ** Tensors with two dimensions *)

Record tensor2 (A : Type) := Tensor2 { ncols : nat; rows : list (list A) }.
Arguments Tensor2 {A} ncols rows.
Arguments ncols {A} t.
Arguments rows {A} t.

(** [t.size()] *)
Definition shape {A} (t : tensor2 A) : nat * nat := (length (rows t), ncols t).

(** Every row has [ncols] entries. *)
Definition wf_tensor2 {A} (t : tensor2 A) : Prop :=
  Forall (fun r => length r = ncols t) (rows t).

(** [t[i, j]] read with indices in range. *)
Definition entry {A} (t : tensor2 A) (i j : nat) : option A :=
  rows t !! i ≫= (.!! j).

(** ** Labels and their remapping *)

(** The label values that are modelled: [None], a [bool], a plain [int], a
    numpy integer, a list of ints, or a 1-D integer tensor. Other Python
    values (a tuple, a range, an ndarray, ...) are outside this type. *)
Inductive pyval :=
| PyNone
| PyBool (b : bool)
| PyInt (z : Z)
| NpInt (z : Z)
| PyList (l : list Z)
| Tensor (t : list Z).

(** [type(v) == int]: a [bool] or a numpy integer is not of type [int]. *)
Definition type_is_int (v : pyval) : bool :=
  match v with
  | PyInt _ => true
  | _ => false
  end.

(** [type(v) == torch.Tensor] *)
Definition type_is_tensor (v : pyval) : bool :=
  match v with
  | Tensor _ => true
  | _ => false
  end.

(** Modelled from the spec: the reverse-index collaborator, whose class is not
    part of this module. It exposes a lookup that maps a batch of raw integer
    labels to a batch of remapped integer indices, one index per label. *)
Record ReverseIndex := {
  getNodes : list Z → list Z;
  getNodes_length : ∀ t, length (getNodes t) = length t
}.

(** [torch.tensor([z])]: the entries of an integer tensor are 64-bit; which
    exception an integer outside that range raises depends on the torch
    version. *)
Definition torch_tensor1 (z : Z) : outcome (list Z) :=
  if decide (- 2 ^ 63 ≤ z < 2 ^ 63)%Z then Ok [z] else Raise RuntimeError.

(** [int(t)]: only a tensor with one element converts to a Python scalar. *)
Definition py_int (t : list Z) : outcome Z :=
  match t with
  | [z] => Ok z
  | _ => Raise ValueError
  end.

(** [len(v)] *)
Definition py_len (v : pyval) : outcome nat :=
  match v with
  | PyList l => Ok (length l)
  | Tensor t => Ok (length t)
  | _ => Raise TypeError
  end.

(** The items [enumerate(v)] goes through. *)
Definition py_iter (v : pyval) : outcome (list Z) :=
  match v with
  | PyList l => Ok l
  | Tensor t => Ok t
  | _ => Raise TypeError
  end.

Definition map_to_outputs (labels : pyval) (reverse_index : option ReverseIndex)
  : outcome pyval :=
  match reverse_index with
  | None => Ok labels
  | Some ri =>
    match labels with
    | PyInt z =>                      (* type(labels) == int *)
      t ← torch_tensor1 z;
      v ← py_int (getNodes ri t);
      Ok (PyInt v)
    | Tensor t =>                     (* type(labels) == torch.Tensor *)
      Ok (Tensor (getNodes ri t))
    | _ => Ok PyNone                  (* no branch returns: the call yields None *)
    end
  end.

(** ** One-hot encoding *)

(** [torch.zeros(batch_size, n_classes)]; [n_classes] is a class count. *)
Definition torch_zeros (batch_size n_classes : nat) : tensor2 Z :=
  Tensor2 n_classes (replicate batch_size (replicate n_classes 0%Z)).

(** The column a tensor index [l] denotes among [n]: an index below zero
    counts from the end. *)
Definition wrap_index (n : nat) (l : Z) : Z :=
  if decide (l < 0)%Z then (l + Z.of_nat n)%Z else l.

Definition index_ok (n : nat) (l : Z) : Prop :=
  (- Z.of_nat n ≤ l < Z.of_nat n)%Z.

(** [t[i, l] = v] *)
Definition setitem (t : tensor2 Z) (i : nat) (l : Z) (v : Z) : outcome (tensor2 Z) :=
  match rows t !! i with
  | None => Raise IndexError
  | Some row =>
    if decide (index_ok (ncols t) l) then
      Ok (Tensor2 (ncols t)
            (<[i := <[Z.to_nat (wrap_index (ncols t) l) := v]> row]> (rows t)))
    else Raise IndexError
  end.

(** [for i, l in enumerate(labels): enconded[i, l] = 1], from position [i]. *)
Fixpoint encode_loop (enconded : tensor2 Z) (i : nat) (labels : list Z)
  : outcome (tensor2 Z) :=
  match labels with
  | [] => Ok enconded
  | l :: labels' =>
    enconded' ← setitem enconded i l 1%Z;
    encode_loop enconded' (S i) labels'
  end.

(** The [dtype] and [device] arguments only select the representation of the
    entries 0 and 1 and are left out. *)
Definition _one_hot_encode (labels : pyval) (n_classes : nat)
    (reverse_index : option ReverseIndex) : outcome (tensor2 Z) :=
  batch_size ← py_len labels;
  let enconded := torch_zeros batch_size n_classes in
  labels' ← map_to_outputs labels reverse_index;
  items ← py_iter labels';
  encode_loop enconded 0 items.

(** The batch of mapped label indices of a call, when there is one. *)
Definition mapped_labels (labels : pyval) (reverse_index : option ReverseIndex)
  : outcome (list Z) :=
  map_to_outputs labels reverse_index ≫= py_iter.

(** The mapped labels of a batch, in the spec's words: the labels themselves
    when the collaborator is absent, and the collaborator's lookup of the
    label tensor when it is present. *)
Definition remapped_batch (labels : pyval) (reverse_index : option ReverseIndex)
    (m : list Z) : Prop :=
  match reverse_index with
  | None => py_iter labels = Ok m
  | Some ri => ∃ t, labels = Tensor t ∧ m = getNodes ri t
  end.

(** ** Joining subsets *)

(** [torch.utils.data.Subset]: a view of a dataset through a list of indices. *)
Record Subset (D : Type) := MkSubset { dataset : D; indices : list Z }.
Arguments MkSubset {D} dataset indices.
Arguments dataset {D} s.
Arguments indices {D} s.

Definition joinSubsets {D D' : Type} (dataset : D) (subsets : list (Subset D'))
  : Subset D :=
  let joined := foldl (fun acc s => acc ++ indices s) [] subsets in
  MkSubset dataset joined.

(** ** Metrics file *)

(** [range(start, stop, step)] for a positive step. *)
Definition py_range (start stop step : Z) : list Z :=
  (fun k => start + k * step)%Z <$> seqZ 0 ((stop - start + step - 1) `div` step).

(** [l[i]] on a Python sequence, for an index counted from zero. *)
Definition getitem {A} (l : list A) (i : nat) : outcome A :=
  match l !! i with
  | Some a => Ok a
  | None => Raise IndexError
  end.

(** The record [data] that [writeMetrics] dumps. *)
Record metrics (A : Type) := Metrics {
  data_accuracies : list (gmap Z A);
  data_cm : list (gmap Z (list Z))
}.
Arguments Metrics {A} data_accuracies data_cm.
Arguments data_accuracies {A} m.
Arguments data_cm {A} m.

Section WriteMetrics.
Context {A : Type}.

(** The first loop, from counter [i]. *)
Fixpoint accuracies_loop (accuracies : list A) (out : list (gmap Z A))
    (i : nat) (steps : list Z) : outcome (list (gmap Z A)) :=
  match steps with
  | [] => Ok out
  | classes_seen :: steps' =>
    a ← getitem accuracies i;
    accuracies_loop accuracies (out ++ [{[classes_seen := a]}]) (S i) steps'
  end.

(** The second loop, from counter [i]. *)
Fixpoint cm_loop (confusionMatrixData : list (list Z))
    (out : list (gmap Z (list Z))) (i : nat) (nums : list Z)
  : outcome (list (gmap Z (list Z))) :=
  match nums with
  | [] => Ok out
  | class_num :: nums' =>
    row ← getitem confusionMatrixData i;
    cm_loop confusionMatrixData (out ++ [{[class_num := row]}]) (S i) nums'
  end.

(** The file system is a map from file names to the record dumped there.
    The confusion matrix is an array whose rows convert with [tolist]; the
    failures of [open] and [json.dump] themselves are not modelled. *)
Definition writeMetrics (method : string) (seed : Z) (accuracies : list A)
    (confusionMatrixData : list (list Z)) (files : gmap string (metrics A))
  : outcome (gmap string (metrics A)) :=
  accs ← accuracies_loop accuracies [] 0 (py_range 10 110 10);
  cm ← cm_loop confusionMatrixData [] 0
         (py_range 0 (Z.of_nat (length confusionMatrixData)) 1);
  let data := Metrics accs cm in
  let aus := method +:+ "_" +:+ pretty seed in
  let filename := "data_" +:+ aus +:+ ".json" in
  Ok (<[filename := data]> files).
End WriteMetrics.

(** ** Hyper-parameters *)

(** The values of the configuration dictionary. *)
Inductive hvalue :=
| HInt (z : Z)
| HFloat (x : float)
| HStr (s : string)
| HList (l : list Z).

#[local] Set Warnings "-inexact-float".
(** A decimal literal denotes the nearest binary64 value, as in Python. *)
Definition getHyperparams (_ : unit) : gmap string hvalue :=
  let dictHyperparams : gmap string hvalue :=
    <["LR" := HInt 2]> (
    <["MOMENTUM" := HFloat 0.9]> (
    <["WEIGHT_DECAY" := HFloat 1e-5]> (
    <["NUM_EPOCHS" := HInt 70]> (
    <["MILESTONES" := HList [49; 63]%Z]> (
    <["BATCH_SIZE" := HInt 128]> (
    <["DEVICE" := HStr "cuda"]> (
    <["GAMMA" := HFloat 0.2]> (
    <["SEED" := HInt 66]> (
    <["LOG_FREQUENCY" := HInt 10]> (
    <["NUM_CLASSES" := HInt 100]> ∅)))))))))) in
  dictHyperparams.

(** The eleven option names. *)
Definition hyperparam_keys : list string :=
  ["LR"; "MOMENTUM"; "WEIGHT_DECAY"; "NUM_EPOCHS"; "MILESTONES"; "BATCH_SIZE";
   "DEVICE"; "GAMMA"; "SEED"; "LOG_FREQUENCY"; "NUM_CLASSES"].

(** ** Scalars of tensor arithmetic *)

(** What the feature-distance loss uses of a floating-point dtype; both
    tensors of a call have this dtype. *)
Class Scalar (S : Type) := {
  szero : S;
  sone : S;
  sadd : S → S → S;
  ssub : S → S → S;
  smul : S → S → S;
  sdiv : S → S → S;
  ssqrt : S → S;
  (** an element count as a scalar *)
  s_of_nat : nat → S
}.

(** IEEE binary64, the entries of a float64 tensor. *)
#[global] Instance float_Scalar : Scalar float := {|
  szero := 0%float;
  sone := 1%float;
  sadd := PrimFloat.add;
  ssub := PrimFloat.sub;
  smul := PrimFloat.mul;
  sdiv := PrimFloat.div;
  ssqrt := PrimFloat.sqrt;
  s_of_nat := fun n => PrimFloat.of_uint63 (Uint63.of_Z (Z.of_nat n))
|}.

(** The value of [L_G_dist]: a 0-d tensor or a 1-D tensor. *)
Inductive tensor01 (S : Type) :=
| T0 (x : S)
| T1 (v : list S).
Arguments T0 {S} x.
Arguments T1 {S} v.

Section TensorArithmetic.
Context {S : Type} `{Scalar S}.

(** [v.sum()], accumulated from the left; torch may add in another order. *)
Definition tsum (v : list S) : S := foldl sadd szero v.

(** [v.mean()] *)
Definition tmean (v : list S) : S := sdiv (tsum v) (s_of_nat (length v)).

(** [torch.norm(v, 2)] *)
Definition torch_norm (v : list S) : S := ssqrt (tsum (map (fun x => smul x x) v)).

(** [v / c] *)
Definition tdiv (v : list S) (c : S) : list S := map (fun x => sdiv x c) v.

(** The sum of the products of paired entries. *)
Definition inner (a b : list S) : S := tsum (zip_with smul a b).

(** [a.dot(b)]: both 1-D tensors must have the same number of elements. *)
Definition torch_dot (a b : list S) : outcome S :=
  if decide (length a = length b) then Ok (inner a b) else Raise RuntimeError.

(** *** Pairwise feature distance *)

(** One minus the sum of products of the two vectors, each divided by its
    norm: the value [L_G_dist_scalar] returns when [dot] accepts its
    arguments. *)
Definition cosine_distance (a b : list S) : S :=
  ssub sone (inner (tdiv a (torch_norm a)) (tdiv b (torch_norm b))).

Definition L_G_dist_scalar (feat_old_1d feat_new_1d : list S) : outcome S :=
  let feat_old_1d := tdiv feat_old_1d (torch_norm feat_old_1d) in
  let feat_new_1d := tdiv feat_new_1d (torch_norm feat_new_1d) in
  d ← torch_dot feat_old_1d feat_new_1d;
  Ok (ssub sone d).

(** [for i in range(n): result[i] = L_G_dist_scalar(feat_old[i,:], feat_new[i,:])] *)
Fixpoint L_G_dist_loop (feat_old feat_new : tensor2 S) (result : list S)
    (range : list nat) : outcome (list S) :=
  match range with
  | [] => Ok result
  | i :: range' =>
    old_i ← getitem (rows feat_old) i;
    new_i ← getitem (rows feat_new) i;
    d ← L_G_dist_scalar old_i new_i;
    L_G_dist_loop feat_old feat_new (<[i := d]> result) range'
  end.


Definition L_G_dist (feat_old feat_new : tensor2 S) (reduce : string)
  : outcome (tensor01 S) :=
  let n := length (rows feat_old) in
  let result := replicate n szero in
  result ← L_G_dist_loop feat_old feat_new result (seq 0 n);
  if decide (reduce = "mean") then Ok (T0 (tmean result))
  else if decide (reduce = "sum") then Ok (T0 (tsum result))
  else Ok (T1 result).

Definition L_G_dist_criterion (reduce : string)
  : tensor2 S → tensor2 S → outcome (tensor01 S) :=
  fun feat_old feat_new => L_G_dist feat_old feat_new reduce.

End TensorArithmetic.

(** ** Sample inputs *)

(** A reverse index that shifts every label down by [k]. *)
Definition offset_index (k : Z) : ReverseIndex :=
  {| getNodes := map (fun z => (z - k)%Z);
     getNodes_length := length_map (fun z => (z - k)%Z) |}.

(** The name of the file [writeMetrics] writes. *)
Definition data_filename (method : string) (seed : Z) : string :=
  "data_" +:+ (method +:+ "_" +:+ pretty seed) +:+ ".json".

(** The value of a run that returned, [d] otherwise. *)
Definition ok_or {A} (d : A) (m : outcome A) : A :=
  match m with
  | Ok a => a
  | Raise _ => d
  end.

(** The files after the metrics of method "lwf" were written for seed 30,
    and then for seed 42. *)
Definition sample_files30 : gmap string (metrics Z) :=
  ok_or ∅ (writeMetrics "lwf" 30 (replicate 10 1%Z) [[5; 0]; [1; 4]]%Z ∅).
Definition sample_files42 : gmap string (metrics Z) :=
  ok_or ∅ (writeMetrics "lwf" 42 (replicate 10 1%Z) [[5; 0]; [1; 4]]%Z sample_files30).

(** * Proofs *)

(** ** One-hot encoding *)

Lemma setitem_in_range t i l v row :
  rows t !! i = Some row → index_ok (ncols t) l →
  setitem t i l v =
    Ok (Tensor2 (ncols t)
          (<[i := <[Z.to_nat (wrap_index (ncols t) l) := v]> row]> (rows t))).
Proof.
  intros Hrow Hl. unfold setitem. rewrite Hrow.
  destruct (decide (index_ok (ncols t) l)); [done | contradiction].
Qed.

Lemma setitem_out_of_range t i l v :
  ¬ index_ok (ncols t) l → fails (setitem t i l v).
Proof.
  intros Hl. unfold setitem. destruct (rows t !! i); [|done].
  destruct (decide (index_ok (ncols t) l)); [contradiction | done].
Qed.

Lemma encode_loop_rows ls : ∀ t k,
  k + length ls ≤ length (rows t) →
  Forall (index_ok (ncols t)) ls →
  ∃ t', encode_loop t k ls = Ok t'
    ∧ ncols t' = ncols t
    ∧ length (rows t') = length (rows t)
    ∧ ∀ i, rows t' !! i =
        if decide (k ≤ i) then
          match ls !! (i - k) with
          | Some l => <[Z.to_nat (wrap_index (ncols t) l) := 1%Z]> <$> rows t !! i
          | None => rows t !! i
          end
        else rows t !! i.
Proof.
  induction ls as [|l ls IH]; intros t k Hlen Hok.
  - exists t. repeat split; try done.
    intros i. case_decide; [|done]. by rewrite lookup_nil.
  - simpl in Hlen. inversion Hok as [|? ? Hl Hls]; subst.
    destruct (lookup_lt_is_Some_2 (rows t) k) as [row Hrow]; [lia|].
    simpl. rewrite (setitem_in_range _ _ _ _ _ Hrow Hl). simpl.
    set (t1 := Tensor2 _ _).
    destruct (IH t1 (S k)) as (t' & Hrun & Hcols & Hrows & Hget).
    + subst t1. simpl. rewrite length_insert. lia.
    + done.
    + exists t'. split; [done|]. split; [done|]. split.
      { rewrite Hrows. subst t1. simpl. by rewrite length_insert. }
      intros i. rewrite Hget. subst t1. simpl.
      destruct (decide (i = k)) as [->|Hne].
      * rewrite Nat.sub_diag. simpl.
        rewrite decide_False by lia. rewrite decide_True by lia.
        rewrite list_lookup_insert_eq by (apply lookup_lt_is_Some; eauto).
        by rewrite Hrow.
      * rewrite list_lookup_insert_ne by done.
        destruct (decide (k ≤ i)) as [Hle|Hgt].
        -- rewrite decide_True by lia.
           replace (i - k) with (S (i - S k)) by lia. done.
        -- rewrite decide_False by lia. done.
Qed.

Lemma encode_loop_fails ls : ∀ t k,
  k + length ls ≤ length (rows t) →
  Exists (fun l => ¬ index_ok (ncols t) l) ls →
  fails (encode_loop t k ls).
Proof.
  induction ls as [|l ls IH]; intros t k Hlen Hbad.
  - inversion Hbad.
  - simpl in Hlen. simpl.
    destruct (decide (index_ok (ncols t) l)) as [Hl|Hl].
    + destruct (lookup_lt_is_Some_2 (rows t) k) as [row Hrow]; [lia|].
      rewrite (setitem_in_range _ _ _ _ _ Hrow Hl). simpl.
      apply IH; simpl.
      * rewrite length_insert. lia.
      * inversion Hbad; [contradiction | done].
    + pose proof (setitem_out_of_range t k l 1%Z Hl) as Hf.
      destruct (setitem t k l 1%Z); [done | done].
Qed.

Lemma mapped_labels_batch labels ri m :
  mapped_labels labels ri = Ok m →
  py_len labels = Ok (length m) ∧ (ri = None → py_iter labels = Ok m).
Proof.
  unfold mapped_labels, map_to_outputs.
  destruct ri as [ri|]; destruct labels as [| |z| | |t]; simpl; try discriminate.
  - destruct (torch_tensor1 z); simpl; [|discriminate].
    destruct (py_int _); simpl; discriminate.
  - intros [= <-]. by rewrite getNodes_length.
  - intros [= <-]. done.
  - intros [= <-]. done.
Qed.

Lemma one_hot_encode_unfold labels n ri m :
  mapped_labels labels ri = Ok m →
  _one_hot_encode labels n ri = encode_loop (torch_zeros (length m) n) 0 m.
Proof.
  intros Hm. destruct (mapped_labels_batch _ _ _ Hm) as [Hlen _].
  unfold _one_hot_encode. rewrite Hlen. simpl.
  unfold mapped_labels in Hm.
  destruct (map_to_outputs labels ri) as [labels'|]; simpl in *; [|discriminate].
  by rewrite Hm.
Qed.

(** The rows written by a call whose mapped indices are all accepted. *)
Lemma one_hot_encode_rows labels n ri m :
  mapped_labels labels ri = Ok m →
  Forall (index_ok n) m →
  ∃ enconded,
    _one_hot_encode labels n ri = Ok enconded
    ∧ shape enconded = (length m, n)
    ∧ ∀ i l, m !! i = Some l →
        rows enconded !! i =
          Some (<[Z.to_nat (wrap_index n l) := 1%Z]> (replicate n 0%Z)).
Proof.
  intros Hm Hok. rewrite (one_hot_encode_unfold _ _ _ _ Hm).
  destruct (encode_loop_rows m (torch_zeros (length m) n) 0)
    as (t' & Hrun & Hcols & Hrows & Hget).
  { simpl. by rewrite length_replicate. }
  { done. }
  exists t'. split; [done|]. split.
  { unfold shape. rewrite Hrows, Hcols. simpl. by rewrite length_replicate. }
  intros i l Hi. rewrite Hget. rewrite decide_True by lia.
  rewrite Nat.sub_0_r, Hi. simpl.
  rewrite lookup_replicate_2 by (apply lookup_lt_Some in Hi; done). done.
Qed.

Lemma one_hot_row_entry n c j :
  j < n →
  (<[c := 1%Z]> (replicate n 0%Z)) !! j = Some (if decide (j = c) then 1%Z else 0%Z).
Proof.
  intros Hj. destruct (decide (j = c)) as [->|Hne].
  - rewrite list_lookup_insert_eq; [done | by rewrite length_replicate].
  - rewrite list_lookup_insert_ne by done. by apply lookup_replicate_2.
Qed.

Lemma remapped_batch_mapped labels ri m :
  remapped_batch labels ri m → mapped_labels labels ri = Ok m.
Proof.
  unfold remapped_batch, mapped_labels. destruct ri as [ri|]; simpl.
  - intros (t & -> & ->). reflexivity.
  - intros Hm. exact Hm.
Qed.

(** C2: when every mapped label index (the collaborator's lookup of the
    label tensor, or the raw labels without a collaborator) lies in
    [0, n_classes), the call returns a matrix of shape batch_size x n_classes
    whose entry (i, j) is 1 exactly when j is the mapped label of row i and 0
    otherwise; without a reverse index the mapped labels are the raw labels. *)
Theorem one_hot_encode_correct labels n_classes reverse_index m :
  remapped_batch labels reverse_index m →
  Forall (fun l => (0 ≤ l < Z.of_nat n_classes)%Z) m →
  ∃ batch_size enconded,
    py_len labels = Ok batch_size
    ∧ _one_hot_encode labels n_classes reverse_index = Ok enconded
    ∧ shape enconded = (batch_size, n_classes)
    ∧ wf_tensor2 enconded
    ∧ (∀ i j, i < batch_size → j < n_classes →
         ∃ l, m !! i = Some l
           ∧ entry enconded i j = Some (if decide (Z.of_nat j = l) then 1%Z else 0%Z))
    ∧ (reverse_index = None → py_iter labels = Ok m).
Proof.
  intros Hspec Hrange. pose proof (remapped_batch_mapped _ _ _ Hspec) as Hm.
  destruct (mapped_labels_batch _ _ _ Hm) as [Hlen Hraw].
  assert (Hok : Forall (index_ok n_classes) m).
  { eapply Forall_impl; [exact Hrange|]. unfold index_ok. simpl. lia. }
  destruct (one_hot_encode_rows _ n_classes _ _ Hm Hok) as (enc & Hrun & Hshape & Hrows).
  exists (length m), enc. split_and!; try done.
  - unfold wf_tensor2. apply Forall_lookup. intros i row Hi.
    injection Hshape as Hnrows Hncols. rewrite Hncols.
    destruct (lookup_lt_is_Some_2 m i) as [l Hl].
    { rewrite <- Hnrows. by apply lookup_lt_Some in Hi. }
    rewrite (Hrows _ _ Hl) in Hi. injection Hi as <-.
    by rewrite length_insert, length_replicate.
  - intros i j Hi Hj.
    destruct (lookup_lt_is_Some_2 m i Hi) as [l Hl]. exists l. split; [done|].
    unfold entry. rewrite (Hrows _ _ Hl). simpl.
    rewrite one_hot_row_entry by done.
    assert (0 ≤ l < Z.of_nat n_classes)%Z as Hl'.
    { eapply Forall_lookup_1 in Hrange; eauto. }
    unfold wrap_index. rewrite (decide_False (P := (l < 0)%Z)) by lia.
    destruct (decide (j = Z.to_nat l)), (decide (Z.of_nat j = l)); (done || lia).
Qed.

Lemma one_hot_encode_correct_witness :
  ∃ batch_size enconded,
    py_len (Tensor [12; 10]%Z) = Ok batch_size
    ∧ _one_hot_encode (Tensor [12; 10]%Z) 3 (Some (offset_index 10)) = Ok enconded
    ∧ shape enconded = (batch_size, 3)
    ∧ wf_tensor2 enconded
    ∧ (∀ i j, i < batch_size → j < 3 →
         ∃ l, [2; 0]%Z !! i = Some l
           ∧ entry enconded i j = Some (if decide (Z.of_nat j = l) then 1%Z else 0%Z))
    ∧ (Some (offset_index 10) = None → py_iter (Tensor [12; 10]%Z) = Ok [2; 0]%Z).
Proof.
  apply (one_hot_encode_correct (Tensor [12; 10]%Z) 3 (Some (offset_index 10)) [2; 0]%Z).
  - exists [12; 10]%Z. split; reflexivity.
  - repeat (constructor; [lia|]). constructor.
Defined.

(** C1, as the code behaves: the call fails exactly when some mapped label
    index lies outside [-n_classes, n_classes); a mapped index below zero that
    is accepted sets the entry counted from the end of its row. *)
Theorem one_hot_encode_fails_iff labels n_classes reverse_index m :
  mapped_labels labels reverse_index = Ok m →
  (fails (_one_hot_encode labels n_classes reverse_index)
     ↔ Exists (fun l => ¬ (- Z.of_nat n_classes ≤ l < Z.of_nat n_classes)%Z) m)
  ∧ (∀ enconded i l,
       _one_hot_encode labels n_classes reverse_index = Ok enconded →
       m !! i = Some l → (l < 0)%Z →
       entry enconded i (Z.to_nat (Z.of_nat n_classes + l)) = Some 1%Z).
Proof.
  intros Hm.
  destruct (decide (Forall (index_ok n_classes) m)) as [Hok|Hbad].
  - destruct (one_hot_encode_rows _ n_classes _ _ Hm Hok) as (enc & Hrun & Hshape & Hrows).
    split.
    + rewrite Hrun. simpl. split; [done|].
      intros Hex. apply Exists_exists in Hex as (l & Hin & Hl).
      rewrite Forall_forall in Hok. exfalso. apply Hl. by apply Hok.
    + intros enc' i l Henc Hi Hneg. rewrite Hrun in Henc. injection Henc as <-.
      unfold entry. rewrite (Hrows _ _ Hi). simpl.
      assert (index_ok n_classes l) as Hl by (eapply Forall_lookup_1 in Hok; eauto).
      unfold index_ok in Hl.
      rewrite one_hot_row_entry by lia.
      unfold wrap_index. rewrite (decide_True (P := (l < 0)%Z)) by lia.
      rewrite decide_True; [done | f_equal; lia].
  - apply not_Forall_Exists in Hbad; [|intros l; apply _].
    assert (Hf : fails (_one_hot_encode labels n_classes reverse_index)).
    { rewrite (one_hot_encode_unfold _ _ _ _ Hm).
      apply encode_loop_fails; simpl; [by rewrite length_replicate | done]. }
    split.
    + split; [|done]. intros _. done.
    + intros enc i l Henc. rewrite Henc in Hf. done.
Qed.

Lemma one_hot_encode_fails_iff_witness :
  (fails (_one_hot_encode (Tensor [-1; 3]%Z) 3 None)
     ↔ Exists (fun l => ¬ (- Z.of_nat 3 ≤ l < Z.of_nat 3)%Z) [-1; 3]%Z)
  ∧ (∀ enconded i l,
       _one_hot_encode (Tensor [-1; 3]%Z) 3 None = Ok enconded →
       [-1; 3]%Z !! i = Some l → (l < 0)%Z →
       entry enconded i (Z.to_nat (Z.of_nat 3 + l)) = Some 1%Z).
Proof.
  apply (one_hot_encode_fails_iff (Tensor [-1; 3]%Z) 3 None [-1; 3]%Z).
  reflexivity.
Defined.

(** C1 as stated fails: the mapped index -1 is outside [0, 3), and the call
    returns the row [0; 0; 1] instead of failing. *)
Lemma one_hot_encode_negative_index_counterexample :
  mapped_labels (Tensor [-1]%Z) None = Ok [-1]%Z
  ∧ _one_hot_encode (Tensor [-1]%Z) 3 None = Ok (Tensor2 3 [[0; 0; 1]]%Z)
  ∧ ¬ (fails (_one_hot_encode (Tensor [-1]%Z) 3 None)
       ↔ Exists (fun l => ¬ (0 ≤ l < Z.of_nat 3)%Z) [-1]%Z).
Proof.
  split_and!; [reflexivity | reflexivity |].
  intros [_ Hfail]. apply Hfail. apply Exists_cons_hd. lia.
Qed.

(** ** Label remapping, subsets, metrics, hyper-parameters *)

(** C6: without a reverse index, [map_to_outputs] returns its input, whether
    a single integer or a batch. *)
Theorem map_to_outputs_identity (labels : pyval) :
  map_to_outputs labels None = Ok labels.
Proof. reflexivity. Qed.

(** C10: with a reverse index, labels that are neither a plain [int] nor a
    tensor take no branch, and the call returns [None]. *)
Theorem map_to_outputs_falls_through (labels : pyval) (reverse_index : ReverseIndex) :
  type_is_int labels = false →
  type_is_tensor labels = false →
  map_to_outputs labels (Some reverse_index) = Ok PyNone.
Proof.
  intros Hint Htensor. destruct labels; simpl in *; (done || discriminate).
Qed.

Lemma map_to_outputs_falls_through_witness :
  map_to_outputs (PyList [1; 2]%Z) (Some (offset_index 10)) = Ok PyNone.
Proof.
  apply (map_to_outputs_falls_through (PyList [1; 2]%Z) (offset_index 10));
    reflexivity.
Defined.

Lemma foldl_app_indices {D} (subsets : list (Subset D)) : ∀ acc,
  foldl (fun acc s => acc ++ indices s) acc subsets
  = acc ++ concat (map indices subsets).
Proof.
  induction subsets as [|s subsets IH]; intros acc; simpl.
  - by rewrite app_nil_r.
  - by rewrite IH, app_assoc.
Qed.

Lemma count_occ_concat (x : Z) (ls : list (list Z)) :
  count_occ Z.eq_dec (concat ls) x = sum_list (map (fun l => count_occ Z.eq_dec l x) ls).
Proof.
  induction ls as [|l ls IH]; simpl; [done|].
  by rewrite count_occ_app, IH.
Qed.

(** C7: the joined subset views the given dataset through the concatenation,
    in input order, of the subsets' index lists; an index occurs in it as many
    times as in all the subsets together. *)
Theorem joinSubsets_concat {D D'} (base : D) (subsets : list (Subset D')) :
  dataset (joinSubsets base subsets) = base
  ∧ indices (joinSubsets base subsets) = concat (map indices subsets)
  ∧ ∀ x, count_occ Z.eq_dec (indices (joinSubsets base subsets)) x
         = sum_list (map (fun s => count_occ Z.eq_dec (indices s) x) subsets).
Proof.
  assert (Hidx : indices (joinSubsets base subsets) = concat (map indices subsets)).
  { unfold joinSubsets. simpl. by rewrite foldl_app_indices. }
  split_and!; [done | done |].
  intros x. rewrite Hidx, count_occ_concat, map_map. done.
Qed.

Section WriteMetricsFacts.
Context {A : Type}.
Implicit Types (accuracies : list A) (out : list (gmap Z A)).

Lemma accuracies_loop_ok accuracies steps : ∀ out i,
  i + length steps ≤ length accuracies →
  ∃ res, accuracies_loop accuracies out i steps = Ok res
    ∧ length res = length out + length steps
    ∧ (∀ k, k < length out → res !! k = out !! k)
    ∧ ∀ k c, steps !! k = Some c →
        ∃ a, accuracies !! (i + k) = Some a
          ∧ res !! (length out + k) = Some {[c := a]}.
Proof.
  induction steps as [|c steps IH]; intros out i Hlen; simpl in *.
  - exists out. split_and!; [done | lia | done |]. intros k c' Hk. by rewrite lookup_nil in Hk.
  - destruct (lookup_lt_is_Some_2 accuracies i) as [a Ha]; [lia|].
    unfold getitem. rewrite Ha. simpl.
    destruct (IH (out ++ [{[c := a]}]) (S i)) as (res & Hrun & Hlenres & Hold & Hnew); [lia|].
    rewrite length_app in *. simpl in *.
    exists res. split_and!; [done | lia | |].
    + intros k Hk. rewrite Hold by lia. by rewrite lookup_app_l.
    + intros [|k] c' Hk; simpl in Hk.
      * injection Hk as <-. exists a. rewrite !Nat.add_0_r. split; [done|].
        rewrite Hold by lia. rewrite lookup_app_r by lia. by rewrite Nat.sub_diag.
      * destruct (Hnew k c' Hk) as (a' & Ha' & Hres). exists a'.
        replace (i + S k) with (S i + k) by lia. split; [done|].
        by replace (length out + S k) with (length out + 1 + k) by lia.
Qed.

Lemma accuracies_loop_short accuracies steps : ∀ out i,
  i ≤ length accuracies →
  length accuracies < i + length steps →
  fails (accuracies_loop accuracies out i steps).
Proof.
  induction steps as [|c steps IH]; intros out i Hi Hlen; simpl in *; [lia|].
  unfold getitem. destruct (accuracies !! i) as [a|] eqn:Ha; simpl; [|done].
  apply lookup_lt_Some in Ha. apply IH; lia.
Qed.

Lemma cm_loop_ok (cm : list (list Z)) nums : ∀ done_rows i,
  i + length nums ≤ length cm →
  ∃ res, cm_loop cm done_rows i nums = Ok res
    ∧ length res = length done_rows + length nums
    ∧ (∀ k, k < length done_rows → res !! k = done_rows !! k)
    ∧ ∀ k c, nums !! k = Some c →
        ∃ row, cm !! (i + k) = Some row
          ∧ res !! (length done_rows + k) = Some {[c := row]}.
Proof.
  induction nums as [|c nums IH]; intros done_rows i Hlen; simpl in *.
  - exists done_rows. split_and!; [done | lia | done |]. intros k c' Hk. by rewrite lookup_nil in Hk.
  - destruct (lookup_lt_is_Some_2 cm i) as [a Ha]; [lia|].
    unfold getitem. rewrite Ha. simpl.
    destruct (IH (done_rows ++ [{[c := a]}]) (S i)) as (res & Hrun & Hlenres & Hold & Hnew); [lia|].
    rewrite length_app in *. simpl in *.
    exists res. split_and!; [done | lia | |].
    + intros k Hk. rewrite Hold by lia. by rewrite lookup_app_l.
    + intros [|k] c' Hk; simpl in Hk.
      * injection Hk as <-. exists a. rewrite !Nat.add_0_r. split; [done|].
        rewrite Hold by lia. rewrite lookup_app_r by lia. by rewrite Nat.sub_diag.
      * destruct (Hnew k c' Hk) as (a' & Ha' & Hres). exists a'.
        replace (i + S k) with (S i + k) by lia. split; [done|].
        by replace (length done_rows + S k) with (length done_rows + 1 + k) by lia.
Qed.
End WriteMetricsFacts.

Lemma py_range_rows (n : nat) :
  py_range 0 (Z.of_nat n) 1 = Z.of_nat <$> seq 0 n.
Proof.
  unfold py_range. replace ((Z.of_nat n - 0 + 1 - 1) `div` 1)%Z with (Z.of_nat n)
    by (rewrite Z.div_1_r; lia).
  apply list_eq. intros i. rewrite !list_lookup_fmap.
  destruct (decide (i < n)) as [Hi|Hi].
  - rewrite lookup_seqZ_lt by lia. rewrite lookup_seq_lt by done. simpl. f_equal. lia.
  - rewrite lookup_seqZ_ge by lia. rewrite lookup_seq_ge by lia. done.
Qed.

Lemma py_range_steps : py_range 10 110 10 = (fun i => 10 * (Z.of_nat i + 1))%Z <$> seq 0 10.
Proof. reflexivity. Qed.


(** C8, as the code behaves: given at least ten accuracies, the record that
    is written has ten "accuracies" entries, the i-th the singleton map from
    10 (i + 1) to the i-th accuracy, and one "cm" entry per row of the
    confusion matrix, the j-th the singleton map from j to row j. *)
Theorem writeMetrics_record {A} (method : string) (seed : Z) (accuracies : list A)
    (confusionMatrixData : list (list Z)) (files : gmap string (metrics A)) :
  10 ≤ length accuracies →
  ∃ data,
    writeMetrics method seed accuracies confusionMatrixData files
      = Ok (<["data_" +:+ (method +:+ "_" +:+ pretty seed) +:+ ".json" := data]> files)
    ∧ length (data_accuracies data) = 10
    ∧ (∀ i, i < 10 →
         data_accuracies data !! i
         = (fun a => {[ (10 * (Z.of_nat i + 1))%Z := a ]}) <$> accuracies !! i)
    ∧ length (data_cm data) = length confusionMatrixData
    ∧ (∀ j, data_cm data !! j
            = (fun row => {[ Z.of_nat j := row ]}) <$> confusionMatrixData !! j).
Proof.
  intros Hlen. unfold writeMetrics.
  destruct (accuracies_loop_ok accuracies (py_range 10 110 10) [] 0)
    as (accs & Haccs & Hlaccs & _ & Hget); [simpl; lia|].
  destruct (cm_loop_ok confusionMatrixData
              (py_range 0 (Z.of_nat (length confusionMatrixData)) 1) [] 0)
    as (cm & Hcm & Hlcm & _ & Hgetcm).
  { rewrite py_range_rows, length_fmap, length_seq. lia. }
  rewrite Haccs, Hcm. simpl.
  exists (Metrics accs cm). split_and!; simpl.
  - done.
  - done.
  - intros i Hi.
    destruct (Hget i (10 * (Z.of_nat i + 1))%Z) as (a & Ha & Hres).
    { rewrite py_range_steps, list_lookup_fmap, lookup_seq_lt by done. done. }
    simpl in Ha, Hres. by rewrite Ha, Hres.
  - rewrite Hlcm, py_range_rows, length_fmap, length_seq. done.
  - intros j. destruct (decide (j < length confusionMatrixData)) as [Hj|Hj].
    + destruct (Hgetcm j (Z.of_nat j)) as (row & Hrow & Hres).
      { rewrite py_range_rows, list_lookup_fmap, lookup_seq_lt by done. done. }
      simpl in Hrow, Hres. by rewrite Hrow, Hres.
    + rewrite (lookup_ge_None_2 confusionMatrixData) by lia.
      apply lookup_ge_None_2.
      rewrite Hlcm, py_range_rows, length_fmap, length_seq. simpl. lia.
Qed.

Lemma writeMetrics_record_witness :
  ∃ data,
    writeMetrics "lwf" 30 (replicate 10 1%Z) [[5; 0]; [1; 4]]%Z ∅
      = Ok (<["data_" +:+ ("lwf" +:+ "_" +:+ pretty 30%Z) +:+ ".json" := data]> ∅)
    ∧ length (data_accuracies data) = 10
    ∧ (∀ i, i < 10 →
         data_accuracies data !! i
         = (fun a => {[ (10 * (Z.of_nat i + 1))%Z := a ]}) <$> replicate 10 1%Z !! i)
    ∧ length (data_cm data) = 2
    ∧ (∀ j, data_cm data !! j
            = (fun row => {[ Z.of_nat j := row ]}) <$> [[5; 0]; [1; 4]]%Z !! j).
Proof.
  apply (writeMetrics_record "lwf" 30 (replicate 10 1%Z) [[5; 0]; [1; 4]]%Z ∅).
  simpl. lia.
Defined.

(** C8 as stated fails: with fewer than ten accuracies no record is written,
    the tenth lookup at the latest raises. *)
Lemma writeMetrics_short_counterexample :
  fails (writeMetrics "lwf" 30 ([] : list Z) [[5; 0]; [1; 4]]%Z ∅)
  ∧ fails (writeMetrics "lwf" 30 (replicate 9 1%Z) [[5; 0]; [1; 4]]%Z ∅).
Proof. split; vm_compute; exact I. Qed.

(** C9: the call returns a map whose keys are exactly the eleven option
    names, each with the value the source gives it; the milestones are an
    increasing list of epochs. *)
Theorem getHyperparams_defaults (u : unit) :
  (∀ k, is_Some (getHyperparams u !! k) ↔ k ∈ hyperparam_keys)
  ∧ NoDup hyperparam_keys
  ∧ length hyperparam_keys = 11
  ∧ size (getHyperparams u) = 11
  ∧ getHyperparams u !! "LR" = Some (HInt 2)
  ∧ getHyperparams u !! "MOMENTUM" = Some (HFloat 0.9)
  ∧ getHyperparams u !! "WEIGHT_DECAY" = Some (HFloat 1e-5)
  ∧ getHyperparams u !! "NUM_EPOCHS" = Some (HInt 70)
  ∧ getHyperparams u !! "MILESTONES" = Some (HList [49; 63]%Z)
  ∧ StronglySorted Z.lt [49; 63]%Z
  ∧ getHyperparams u !! "BATCH_SIZE" = Some (HInt 128)
  ∧ getHyperparams u !! "DEVICE" = Some (HStr "cuda")
  ∧ getHyperparams u !! "GAMMA" = Some (HFloat 0.2)
  ∧ getHyperparams u !! "SEED" = Some (HInt 66)
  ∧ getHyperparams u !! "LOG_FREQUENCY" = Some (HInt 10)
  ∧ getHyperparams u !! "NUM_CLASSES" = Some (HInt 100).
Proof.
  split_and!; try (vm_compute; reflexivity).
  - intros k. unfold getHyperparams, hyperparam_keys.
    rewrite !lookup_insert_is_Some, lookup_empty, !elem_of_cons, elem_of_nil.
    split.
    + intros Hk.
      repeat (destruct Hk as [<-|[_ Hk]];
              [repeat (first [left; reflexivity | right])|]).
      by destruct (is_Some_None (A:=hvalue)).
    + intros Hk.
      repeat (destruct Hk as [->|Hk];
              [repeat (first [left; reflexivity | right; split; [discriminate|]])|]).
      done.
  - apply NoDup_ListNoDup. repeat constructor; simpl; intros Hin; 
      repeat (destruct Hin as [Hin|Hin]; [discriminate|]); done.
  - repeat constructor; lia.
Qed.

(** ** Tensor arithmetic *)

Section Generic.
Context {S : Type} `{Scalar S}.

Lemma L_G_dist_scalar_same_length (a b : list S) :
  length a = length b → L_G_dist_scalar a b = Ok (cosine_distance a b).
Proof.
  intros Hlen. unfold L_G_dist_scalar, torch_dot, tdiv.
  rewrite !length_map. rewrite decide_True by done. done.
Qed.

Lemma L_G_dist_scalar_length_mismatch (a b : list S) :
  length a ≠ length b → L_G_dist_scalar a b = Raise RuntimeError.
Proof.
  intros Hlen. unfold L_G_dist_scalar, torch_dot, tdiv.
  rewrite !length_map. rewrite decide_False by done. done.
Qed.


End Generic.

(** * Further properties *)

(** ** One-hot encoding and label remapping *)

Lemma one_hot_encode_Ok_mapped labels n ri enc :
  _one_hot_encode labels n ri = Ok enc → ∃ m, mapped_labels labels ri = Ok m.
Proof.
  unfold _one_hot_encode, mapped_labels.
  destruct (py_len labels); simpl; [|discriminate].
  destruct (map_to_outputs labels ri) as [labels'|]; simpl; [|discriminate].
  destruct (py_iter labels') as [m|]; simpl; [|discriminate].
  intros _. by exists m.
Qed.

Lemma wrap_index_range n l :
  index_ok n l → Z.to_nat (wrap_index n l) < n.
Proof. unfold index_ok, wrap_index. intros Hl. case_decide; lia. Qed.

(** The row written for label index [l] among [n] classes. *)
Lemma one_hot_row_inj n c1 c2 :
  c1 < n →
  <[c1 := 1%Z]> (replicate n 0%Z) = <[c2 := 1%Z]> (replicate n 0%Z) → c1 = c2.
Proof.
  intros Hc Heq.
  assert (H1 : (<[c1 := 1%Z]> (replicate n 0%Z)) !! c1 = Some 1%Z).
  { apply list_lookup_insert_eq. by rewrite length_replicate. }
  rewrite Heq in H1. destruct (decide (c1 = c2)) as [|Hne]; [done|].
  rewrite list_lookup_insert_ne in H1 by done.
  rewrite lookup_replicate_2 in H1 by done. discriminate.
Qed.

(** What a successful call has written, from its result alone. *)
Lemma one_hot_encode_Ok_form labels n reverse_index enconded :
  _one_hot_encode labels n reverse_index = Ok enconded →
  ∃ m, mapped_labels labels reverse_index = Ok m
    ∧ Forall (index_ok n) m
    ∧ enconded =
        Tensor2 n
          ((fun l => <[Z.to_nat (wrap_index n l) := 1%Z]> (replicate n 0%Z)) <$> m).
Proof.
  intros Hrun. destruct (one_hot_encode_Ok_mapped _ _ _ _ Hrun) as [m Hm].
  exists m. split; [done|].
  assert (Hok : Forall (index_ok n) m).
  { destruct (decide (Forall (index_ok n) m)) as [|Hbad]; [done|].
    apply not_Forall_Exists in Hbad; [|intros l; apply _].
    exfalso. rewrite (one_hot_encode_unfold _ _ _ _ Hm) in Hrun.
    pose proof (encode_loop_fails m (torch_zeros (length m) n) 0) as Hf.
    rewrite Hrun in Hf. apply Hf; simpl; [by rewrite length_replicate | done]. }
  split; [done|].
  destruct (one_hot_encode_rows _ n _ _ Hm Hok) as (enc & Hrun' & Hshape & Hrows).
  rewrite Hrun in Hrun'. injection Hrun' as <-.
  injection Hshape as Hnrows Hncols.
  destruct enconded as [c rs]. simpl in *. subst c. f_equal.
  apply list_eq. intros i. rewrite list_lookup_fmap.
  destruct (m !! i) as [l|] eqn:Hl; simpl.
  - by apply Hrows.
  - apply lookup_ge_None_2. rewrite Hnrows. by apply lookup_ge_None_1.
Qed.

(** A successful call returns one row per mapped label, the zero row with a
    1 at the label's column (counted from the end for a label below zero);
    so every row has [n_classes] entries that add up to 1. *)
Theorem one_hot_encode_closed_form labels n_classes reverse_index enconded :
  _one_hot_encode labels n_classes reverse_index = Ok enconded →
  ∃ m, mapped_labels labels reverse_index = Ok m
    ∧ Forall (index_ok n_classes) m
    ∧ enconded =
        Tensor2 n_classes
          ((fun l => <[Z.to_nat (wrap_index n_classes l) := 1%Z]>
                       (replicate n_classes 0%Z)) <$> m)
    ∧ Forall (fun row => length row = n_classes ∧ sum_list_with Z.to_nat row = 1)
        (rows enconded).
Proof.
  intros Hrun.
  destruct (one_hot_encode_Ok_form _ _ _ _ Hrun) as (m & Hm & Hok & Hform).
  exists m. split_and!; try done.
  rewrite Hform. simpl. apply Forall_fmap. eapply Forall_impl; [exact Hok|].
  intros l Hl. simpl. pose proof (wrap_index_range _ _ Hl) as Hc.
  set (c := Z.to_nat (wrap_index n_classes l)) in *.
  split; [by rewrite length_insert, length_replicate|].
  rewrite insert_take_drop by (by rewrite length_replicate).
  rewrite take_replicate, drop_replicate, sum_list_with_app. simpl.
  assert (Hz : ∀ k, sum_list_with Z.to_nat (replicate k 0%Z) = 0).
  { induction k; simpl; lia. }
  rewrite !Hz. lia.
Qed.

Lemma one_hot_encode_closed_form_witness :
  ∃ m, mapped_labels (Tensor [1; -1]%Z) None = Ok m
    ∧ Forall (index_ok 3) m
    ∧ Tensor2 3 [[0; 1; 0]; [0; 0; 1]]%Z =
        Tensor2 3
          ((fun l => <[Z.to_nat (wrap_index 3 l) := 1%Z]> (replicate 3 0%Z)) <$> m)
    ∧ Forall (fun row => length row = 3 ∧ sum_list_with Z.to_nat row = 1)
        (rows (Tensor2 3 [[0; 1; 0]; [0; 0; 1]]%Z)).
Proof.
  apply (one_hot_encode_closed_form (Tensor [1; -1]%Z) 3 None).
  reflexivity.
Defined.

Lemma one_hot_rows_eq_iff n (m1 m2 : list Z) :
  Forall (index_ok n) m1 → Forall (index_ok n) m2 →
  (fun l => <[Z.to_nat (wrap_index n l) := 1%Z]> (replicate n 0%Z)) <$> m1
  = (fun l => <[Z.to_nat (wrap_index n l) := 1%Z]> (replicate n 0%Z)) <$> m2
  ↔ wrap_index n <$> m1 = wrap_index n <$> m2.
Proof.
  intros Hok1 Hok2. split.
  - revert m2 Hok2.
    induction Hok1 as [|l1 m1 Hl1 Hok1 IH]; intros [|l2 m2] Hok2 Heq;
      simpl in *; try done.
    injection Heq as Hrow Hrest. inversion Hok2 as [|? ? Hl2 Hok2']; subst.
    apply one_hot_row_inj in Hrow; [|by apply wrap_index_range].
    f_equal; [|by apply IH].
    unfold index_ok, wrap_index in *. repeat case_decide; lia.
  - intros Heq.
    change (fun l => <[Z.to_nat (wrap_index n l) := 1%Z]> (replicate n 0%Z))
      with ((fun c => <[Z.to_nat c := 1%Z]> (replicate n 0%Z)) ∘ wrap_index n).
    by rewrite !list_fmap_compose, Heq.
Qed.

(** Two accepted label batches are encoded by the same matrix exactly when
    their indices agree once those below zero are counted from the end: the
    encoding determines the labels up to that wrap-around, and an index l in
    [0, n_classes) and l - n_classes cannot be told apart. *)
Theorem one_hot_encode_eq_iff n_classes (m1 m2 : list Z) e1 e2 :
  _one_hot_encode (Tensor m1) n_classes None = Ok e1 →
  _one_hot_encode (Tensor m2) n_classes None = Ok e2 →
  e1 = e2 ↔ wrap_index n_classes <$> m1 = wrap_index n_classes <$> m2.
Proof.
  intros H1 H2.
  destruct (one_hot_encode_Ok_form _ _ _ _ H1) as (m1' & Hm1 & Hok1 & ->).
  destruct (one_hot_encode_Ok_form _ _ _ _ H2) as (m2' & Hm2 & Hok2 & ->).
  injection Hm1 as <-. injection Hm2 as <-.
  rewrite <- (one_hot_rows_eq_iff n_classes m1 m2) by done.
  split; [by intros [= ->] | by intros ->].
Qed.

Lemma one_hot_encode_eq_iff_witness :
  Tensor2 3 [[0; 0; 1]; [1; 0; 0]]%Z = Tensor2 3 [[0; 0; 1]; [1; 0; 0]]%Z
  ↔ wrap_index 3 <$> [2; -3]%Z = wrap_index 3 <$> [-1; 0]%Z.
Proof.
  apply (one_hot_encode_eq_iff 3 [2; -3]%Z [-1; 0]%Z); reflexivity.
Defined.

(** The call raises [TypeError] on [None], a [bool], a plain [int] or a numpy
    integer, which have no length, and on a list passed with a reverse index,
    which is remapped to [None] and cannot be iterated. *)
Theorem one_hot_encode_type_error (labels : pyval) (n_classes : nat)
    (reverse_index : option ReverseIndex) :
  labels = PyNone
  ∨ (∃ b, labels = PyBool b)
  ∨ (∃ z, labels = PyInt z)
  ∨ (∃ z, labels = NpInt z)
  ∨ (∃ l ri, labels = PyList l ∧ reverse_index = Some ri) →
  _one_hot_encode labels n_classes reverse_index = Raise TypeError.
Proof.
  intros [-> | [[b ->] | [[z ->] | [[z ->] | (l & ri & -> & ->)]]]]; reflexivity.
Qed.

Lemma one_hot_encode_type_error_witness :
  _one_hot_encode (PyList [0; 1]%Z) 2 (Some (offset_index 0)) = Raise TypeError.
Proof.
  apply (one_hot_encode_type_error (PyList [0; 1]%Z) 2 (Some (offset_index 0))).
  right. right. right. right. exists [0; 1]%Z, (offset_index 0). split; reflexivity.
Defined.

(** Encoding a tensor through a reverse index is encoding the remapped tensor
    without one. *)
Theorem one_hot_encode_remap_compose (t : list Z) (n_classes : nat)
    (reverse_index : ReverseIndex) :
  _one_hot_encode (Tensor t) n_classes (Some reverse_index)
  = _one_hot_encode (Tensor (getNodes reverse_index t)) n_classes None.
Proof.
  unfold _one_hot_encode. simpl. by rewrite getNodes_length.
Qed.

(** With a reverse index, a single integer label (in the 64-bit range) and
    the one-element batch holding it are remapped to the same index: the
    scalar call never fails and returns the entry of the batch call. *)
Theorem map_to_outputs_scalar_batch (z : Z) (reverse_index : ReverseIndex) :
  (- 2 ^ 63 ≤ z < 2 ^ 63)%Z →
  ∃ v, map_to_outputs (PyInt z) (Some reverse_index) = Ok (PyInt v)
     ∧ map_to_outputs (Tensor [z]) (Some reverse_index) = Ok (Tensor [v]).
Proof.
  intros Hz. simpl. unfold torch_tensor1. rewrite decide_True by done. simpl.
  pose proof (getNodes_length reverse_index [z]) as Hlen.
  destruct (getNodes reverse_index [z]) as [|v [|? ?]]; try discriminate.
  by exists v.
Qed.

Lemma map_to_outputs_scalar_batch_witness :
  ∃ v, map_to_outputs (PyInt 12) (Some (offset_index 10)) = Ok (PyInt v)
     ∧ map_to_outputs (Tensor [12]%Z) (Some (offset_index 10)) = Ok (Tensor [v]).
Proof.
  apply (map_to_outputs_scalar_batch 12 (offset_index 10)). lia.
Defined.



(** ** Joined subsets *)

(** Joining distributes over appending collections, and joining two joined
    subsets is joining all their subsets at once. *)
Theorem joinSubsets_flatten {D D1 D2} (base : D) (base1 : D1)
    (xs ys : list (Subset D2)) :
  indices (joinSubsets base (xs ++ ys))
    = indices (joinSubsets base xs) ++ indices (joinSubsets base ys)
  ∧ joinSubsets base [joinSubsets base1 xs; joinSubsets base1 ys]
    = joinSubsets base (xs ++ ys).
Proof.
  assert (Happ : indices (joinSubsets base (xs ++ ys))
            = indices (joinSubsets base xs) ++ indices (joinSubsets base ys)).
  { unfold joinSubsets. simpl. rewrite !foldl_app_indices. simpl.
    by rewrite map_app, concat_app. }
  split; [done|].
  unfold joinSubsets in *. simpl in *. f_equal. rewrite Happ.
  rewrite !foldl_app_indices. simpl. done.
Qed.

(** The joined index list is as long as all the subsets together, and holds
    exactly the indices that some subset holds. *)
Theorem joinSubsets_covers {D D'} (base : D) (subsets : list (Subset D')) :
  length (indices (joinSubsets base subsets))
    = sum_list (map (fun s => length (indices s)) subsets)
  ∧ ∀ x, x ∈ indices (joinSubsets base subsets)
         ↔ ∃ s, s ∈ subsets ∧ x ∈ indices s.
Proof.
  unfold joinSubsets. simpl. rewrite foldl_app_indices. simpl.
  split.
  - induction subsets as [|s subsets IH]; simpl; [done|].
    by rewrite length_app, IH.
  - intros x. rewrite list_elem_of_In, in_concat. split.
    + intros (l & Hl & Hx). apply in_map_iff in Hl as (s & <- & Hs).
      exists s. by rewrite !list_elem_of_In.
    + intros (s & Hs & Hx). exists (indices s). rewrite <- !list_elem_of_In.
      split; [|done]. apply list_elem_of_In, in_map, list_elem_of_In, Hs.
Qed.

(** ** Metrics file *)

Lemma string_length_app (s t : string) :
  String.length (s +:+ t) = String.length s + String.length t.
Proof. induction s as [|a s IH]; simpl; [done | by rewrite IH]. Qed.

Lemma string_app_inv_tail (t s1 s2 : string) : s1 +:+ t = s2 +:+ t → s1 = s2.
Proof.
  revert s2. induction s1 as [|a s1 IH]; intros [|b s2] Heq.
  - done.
  - apply (f_equal String.length) in Heq.
    rewrite !string_length_app in Heq. simpl in Heq. lia.
  - apply (f_equal String.length) in Heq.
    rewrite !string_length_app in Heq. simpl in Heq. lia.
  - simpl in Heq. injection Heq as -> Heq. f_equal. by apply IH.
Qed.

Lemma data_filename_seed_inj method seed1 seed2 :
  data_filename method seed1 = data_filename method seed2 → seed1 = seed2.
Proof.
  unfold data_filename. intros Heq.
  apply (inj (String.app "data_")) in Heq.
  apply string_app_inv_tail in Heq.
  apply (inj (String.app method)) in Heq.
  apply (inj (String.app "_")) in Heq.
  by apply (inj pretty) in Heq.
Qed.

Section WriteMetricsMore.
Context {A : Type}.
Implicit Types (accuracies : list A) (out : list (gmap Z A)).

Lemma accuracies_loop_raises accuracies steps : ∀ out i e,
  accuracies_loop accuracies out i steps = Raise e → e = IndexError.
Proof.
  induction steps as [|c steps IH]; intros out i e; simpl; [discriminate|].
  unfold getitem. destruct (accuracies !! i); simpl; [apply IH | congruence].
Qed.

Lemma accuracies_loop_take accuracies steps k : ∀ out i,
  i + length steps ≤ k →
  accuracies_loop (take k accuracies) out i steps
  = accuracies_loop accuracies out i steps.
Proof.
  induction steps as [|c steps IH]; intros out i Hk; simpl in *; [done|].
  unfold getitem. rewrite lookup_take_lt by lia.
  destruct (accuracies !! i); simpl; [apply IH; lia | done].
Qed.

Lemma writeMetrics_Ok_inv method seed accuracies cm
    (files files' : gmap string (metrics A)) :
  writeMetrics method seed accuracies cm files = Ok files' →
  ∃ data, files' = <[data_filename method seed := data]> files
    ∧ ∀ files0, writeMetrics method seed accuracies cm files0
                = Ok (<[data_filename method seed := data]> files0).
Proof.
  unfold writeMetrics.
  destruct (accuracies_loop _ _ _ _) as [accs|]; simpl; [|discriminate].
  destruct (cm_loop _ _ _ _) as [rows|]; simpl; [|discriminate].
  intros [= <-]. by eexists.
Qed.

(** [writeMetrics] raises [IndexError] exactly when there are fewer than ten
    accuracies: the tenth lookup at the latest falls outside the sequence,
    and no lookup of the two loops does otherwise. *)
Theorem writeMetrics_raises_iff method seed accuracies cm
    (files : gmap string (metrics A)) :
  writeMetrics method seed accuracies cm files = Raise IndexError
  ↔ length accuracies < 10.
Proof.
  assert (Hcm : ∃ rows, cm_loop cm [] 0 (py_range 0 (Z.of_nat (length cm)) 1) = Ok rows).
  { destruct (cm_loop_ok cm (py_range 0 (Z.of_nat (length cm)) 1) [] 0)
      as (rows & Hrows & _).
    - rewrite py_range_rows, length_fmap, length_seq. lia.
    - by exists rows. }
  destruct Hcm as [rows Hrows]. split.
  - intros Hraise. destruct (decide (length accuracies < 10)) as [|Hge]; [done|].
    exfalso. unfold writeMetrics in Hraise.
    destruct (accuracies_loop_ok accuracies (py_range 10 110 10) [] 0)
      as (accs & Haccs & _); [simpl; lia|].
    rewrite Haccs, Hrows in Hraise. discriminate.
  - intros Hshort.
    pose proof (accuracies_loop_short accuracies (py_range 10 110 10) [] 0) as Hf.
    unfold writeMetrics.
    destruct (accuracies_loop _ _ _ _) as [accs|e] eqn:Hacc; simpl.
    + exfalso. apply Hf; simpl; lia.
    + f_equal. by eapply accuracies_loop_raises.
Qed.

(** Only the first ten accuracies are read: entries beyond them change
    nothing. *)
Theorem writeMetrics_first_ten method seed accuracies cm
    (files : gmap string (metrics A)) :
  writeMetrics method seed (take 10 accuracies) cm files
  = writeMetrics method seed accuracies cm files.
Proof.
  unfold writeMetrics. by rewrite accuracies_loop_take by (simpl; lia).
Qed.

(** A second write for the same method and seed replaces the first (its
    outcome is the one it would have had without the first write), and a
    write leaves every other file as it was. *)
Theorem writeMetrics_overwrites method seed accuracies1 cm1 accuracies2 cm2
    (files files1 : gmap string (metrics A)) :
  writeMetrics method seed accuracies1 cm1 files = Ok files1 →
  writeMetrics method seed accuracies2 cm2 files1
    = writeMetrics method seed accuracies2 cm2 files
  ∧ ∀ name, name ≠ data_filename method seed → files1 !! name = files !! name.
Proof.
  intros H1. destruct (writeMetrics_Ok_inv _ _ _ _ _ _ H1) as (d1 & -> & _).
  split.
  - unfold writeMetrics.
    destruct (accuracies_loop _ _ _ _) as [accs|]; simpl; [|done].
    destruct (cm_loop _ _ _ _) as [rows|]; simpl; [|done].
    f_equal. apply insert_insert_eq.
  - intros name Hname. by rewrite lookup_insert_ne.
Qed.

(** Runs of one method with different seeds write to different files: after
    both, the record of the first is still there. *)
Theorem writeMetrics_seeds_apart method seed1 seed2 accuracies1 cm1 accuracies2 cm2
    (files files1 files2 : gmap string (metrics A)) :
  seed1 ≠ seed2 →
  writeMetrics method seed1 accuracies1 cm1 files = Ok files1 →
  writeMetrics method seed2 accuracies2 cm2 files1 = Ok files2 →
  data_filename method seed1 ≠ data_filename method seed2
  ∧ is_Some (files2 !! data_filename method seed2)
  ∧ is_Some (files1 !! data_filename method seed1)
  ∧ files2 !! data_filename method seed1 = files1 !! data_filename method seed1.
Proof.
  intros Hne H1 H2.
  destruct (writeMetrics_Ok_inv _ _ _ _ _ _ H1) as (d1 & -> & _).
  destruct (writeMetrics_Ok_inv _ _ _ _ _ _ H2) as (d2 & -> & _).
  assert (Hfn : data_filename method seed1 ≠ data_filename method seed2).
  { intros Heq. by apply Hne, (data_filename_seed_inj method). }
  split_and!; [done | | |].
  - rewrite lookup_insert_eq. eauto.
  - rewrite lookup_insert_eq. eauto.
  - by rewrite lookup_insert_ne.
Qed.
End WriteMetricsMore.

Lemma writeMetrics_overwrites_witness :
  writeMetrics "lwf" 30 (replicate 10 0%Z) [[2]]%Z sample_files30
    = writeMetrics "lwf" 30 (replicate 10 0%Z) [[2]]%Z ∅
  ∧ ∀ name, name ≠ data_filename "lwf" 30 →
      sample_files30 !! name = (∅ : gmap string (metrics Z)) !! name.
Proof.
  apply (writeMetrics_overwrites "lwf" 30 (replicate 10 1%Z) [[5; 0]; [1; 4]]%Z
           (replicate 10 0%Z) [[2]]%Z ∅ sample_files30).
  reflexivity.
Defined.

Lemma writeMetrics_seeds_apart_witness :
  data_filename "lwf" 30 ≠ data_filename "lwf" 42
  ∧ is_Some (sample_files42 !! data_filename "lwf" 42)
  ∧ is_Some (sample_files30 !! data_filename "lwf" 30)
  ∧ sample_files42 !! data_filename "lwf" 30 = sample_files30 !! data_filename "lwf" 30.
Proof.
  apply (writeMetrics_seeds_apart "lwf" 30 42
           (replicate 10 1%Z) [[5; 0]; [1; 4]]%Z (replicate 10 1%Z) [[5; 0]; [1; 4]]%Z
           ∅ sample_files30 sample_files42).
  - lia.
  - reflexivity.
  - reflexivity.
Defined.

(** ** Feature distance *)

Section GenericMore.
Context {S : Type} `{Scalar S}.




End GenericMore.

Section Symmetry.
Context {S : Type} `{Scalar S}.
Hypothesis smul_comm : ∀ x y : S, smul x y = smul y x.

Lemma inner_comm (a : list S) : ∀ b, inner a b = inner b a.
Proof.
  unfold inner. induction a as [|x a IH]; intros [|y b]; try reflexivity.
  simpl. rewrite (smul_comm x y). f_equal.
  assert (Hzip : ∀ b', zip_with smul a b' = zip_with smul b' a).
  { clear -smul_comm. induction a as [|x' a IH']; intros [|y' b']; simpl; try done.
    by rewrite (smul_comm x' y'), IH'. }
  by rewrite Hzip.
Qed.

Lemma L_G_dist_scalar_comm (a b : list S) :
  L_G_dist_scalar a b = L_G_dist_scalar b a.
Proof.
  destruct (decide (length a = length b)) as [Hlen|Hlen].
  - rewrite !L_G_dist_scalar_same_length by done.
    unfold cosine_distance. by rewrite inner_comm.
  - rewrite !L_G_dist_scalar_length_mismatch by done. done.
Qed.
End Symmetry.

Lemma SFmul_comm prec emax x y :
  SpecFloat.SFmul prec emax x y = SpecFloat.SFmul prec emax y x.
Proof.
  destruct x as [sx|sx| |sx mx ex], y as [sy|sy| |sy my ey]; simpl;
    rewrite ?(xorb_comm sx sy), ?(Pos.mul_comm mx my), ?(Z.add_comm ex ey);
    reflexivity.
Qed.

Lemma float_mul_comm (x y : float) : (x * y)%float = (y * x)%float.
Proof.
  apply FloatAxioms.Prim2SF_inj. rewrite !FloatAxioms.mul_spec. apply SFmul_comm.
Qed.

(** In binary64 the distance is symmetric bit for bit: the paired products
    are equal term by term, so both calls return the same value, or both
    raise when the lengths differ. *)
Theorem L_G_dist_scalar_symmetric (a b : list float) :
  L_G_dist_scalar a b = L_G_dist_scalar b a.
Proof. apply L_G_dist_scalar_comm. exact float_mul_comm. Qed.

(** On a batch without rows, in binary64: the "sum" is 0, the unreduced
    vector is empty, and the "mean" is 0/0, a NaN. [feat_new] is not read. *)
Theorem L_G_dist_empty_batch (c : nat) (feat_new : tensor2 float) :
  L_G_dist (Tensor2 c []) feat_new "sum" = Ok (T0 0%float)
  ∧ L_G_dist (Tensor2 c []) feat_new "none" = Ok (T1 [])
  ∧ ∃ m, L_G_dist (Tensor2 c []) feat_new "mean" = Ok (T0 m)
       ∧ PrimFloat.is_nan m = true.
Proof.
  split_and!; [reflexivity | reflexivity |].
  eexists. split; [reflexivity|]. vm_compute. reflexivity.
Qed.
